(** * Chat accessibility help and profile icons

    A shallow embedding of two leaf modules of the workbench:

    - [vs/workbench/services/userDataProfile/common/userDataProfileIcons.ts]
      (the constants [DEFAULT_ICON] and [ICONS]);
    - the chat accessibility-help module ([getAccessibilityHelpText],
      [descriptionForCommand], [runAccessibilityHelpAction]).

    Strings are [string], the [content] array is a [list] of JavaScript
    values, the host services reached through the [ServicesAccessor] are
    records, and the code that mutates the host (registering a provider,
    showing the view, moving the cursor) is written in a state monad over
    the [World]. *)

From Stdlib Require Import Ascii.
From stdpp Require Import base option list strings gmap functions relations.

(** ** JavaScript values and arrays of them *)

(** The values that flow into [content] and into the substitution
    arguments of [localize] and [format]: the result of
    [lookupKeybinding(id)?.getAriaLabel()] has type
    [string | null | undefined]. *)
Inductive JsValue : Type :=
| JString (s : string)
| JNull
| JUndefined.

#[global] Instance JsValue_eq_dec : EqDecision JsValue.
Proof. solve_decision. Defined.

(** ToBoolean: the empty string, [null] and [undefined] are falsy. *)
Definition truthy (v : JsValue) : bool :=
  match v with
  | JString EmptyString => false
  | JString (String _ _) => true
  | JNull => false
  | JUndefined => false
  end.

(** [String(v)]. *)
Definition toString (v : JsValue) : string :=
  match v with
  | JString s => s
  | JNull => "null"
  | JUndefined => "undefined"
  end.

(** The line feed, ['\n']. *)
Definition LF : ascii := "010"%char.
Definition newline : string := String LF EmptyString.

(** [Array.prototype.join]: [null] and [undefined] elements contribute the
    empty string, the separator goes between consecutive elements. *)
Definition join_item (v : JsValue) : string :=
  match v with
  | JString s => s
  | JNull => EmptyString
  | JUndefined => EmptyString
  end.

Fixpoint join (sep : string) (content : list JsValue) : string :=
  match content with
  | [] => EmptyString
  | v :: rest =>
      match rest with
      | [] => join_item v
      | _ :: _ => join_item v +:+ sep +:+ join sep rest
      end
  end.

(** [content.push(a, b, ...)] appends its arguments in order. *)
Definition push (content items : list JsValue) : list JsValue :=
  content ++ items.

(** [String.prototype.split] on a single character: always at least one
    piece, the pieces are the maximal runs without the separator. *)
Fixpoint split (sep : ascii) (s : string) : list string :=
  match s with
  | EmptyString => [EmptyString]
  | String c rest =>
      if Ascii.eqb c sep then EmptyString :: split sep rest
      else match split sep rest with
           | [] => [String c EmptyString]
           | piece :: pieces => String c piece :: pieces
           end
  end.

(** The character [sep] does not occur in [s]. *)
Fixpoint free_of (sep : ascii) (s : string) : bool :=
  match s with
  | EmptyString => true
  | String c rest => negb (Ascii.eqb c sep) && free_of sep rest
  end.

(** ** Keybindings *)

(** [ResolvedKeybinding]: [getAriaLabel()] and [getLabel()] both have type
    [string | null]. *)
Record ResolvedKeybinding : Type := {
  getLabel : option string;
  getAriaLabel : option string;
}.

(** [IKeybindingService]; [lookupKeybinding] returns
    [ResolvedKeybinding | undefined]. *)
Record IKeybindingService : Type := {
  lookupKeybinding : string → option ResolvedKeybinding;
}.

(** [kb.getAriaLabel()] as a value. *)
Definition ariaLabel_value (kb : ResolvedKeybinding) : JsValue :=
  match getAriaLabel kb with
  | Some label => JString label
  | None => JNull
  end.

(** [keybindingService.lookupKeybinding(id)?.getAriaLabel()]. *)
Definition lookupAriaLabel (keybindingService : IKeybindingService)
    (commandId : string) : JsValue :=
  match lookupKeybinding keybindingService commandId with
  | Some kb => ariaLabel_value kb
  | None => JUndefined
  end.

(** The two-valued mode flag ['panelChat' | 'inlineChat']. *)
Inductive ChatType : Type := panelChat | inlineChat.

#[global] Instance ChatType_eq_dec : EqDecision ChatType.
Proof. solve_decision. Defined.

(** ** Profile icons: [userDataProfileIcons.ts] *)

(** Modelled from the spec: the [Codicon] registry
    ([vs/base/common/codicons]) is not among the sources.  The spec calls
    the list "an ordered collection of icon identifiers (a fixed
    enumeration ...)": the members that the list names are an enumeration,
    one constructor per property of [Codicon], so two members are the same
    icon exactly when they are the same property. *)
Module Codicon.
Inductive t : Type :=
| settingsGear
| vm | server | recordKeys | deviceMobile | watch
| ruby | code
| window | library | extensions | terminal | beaker | package | cloud
| book | globe | database | notebook
| gift | send | briefcase | megaphone | comment | telescope | creditCard
| map | deviceCameraVideo | unmute | law | graphLine | heart | home
| inbox | mortarBoard | rocket | magnet | lock | milestone | tag | pulse
| radioTower | smiley | symbolEvent | squirrel | symbolColor | mail | key
| pieChart | organization | preview | wand | starEmpty | lightbulb
| symbolRuler | dashboard | calendar | shield | flame | compass
| paintcan | archive | mic.

#[global] Instance eq_dec : EqDecision t.
Proof. solve_decision. Defined.
End Codicon.

Definition DEFAULT_ICON : Codicon.t := Codicon.settingsGear.

Definition ICONS : list Codicon.t := [
  (* Default *)
  DEFAULT_ICON;

  (* hardware/devices *)
  Codicon.vm;
  Codicon.server;
  Codicon.recordKeys;
  Codicon.deviceMobile;
  Codicon.watch;

  (* languages *)
  Codicon.ruby;
  Codicon.code;

  (* project types *)
  Codicon.window;
  Codicon.library;
  Codicon.extensions;
  Codicon.terminal;
  Codicon.beaker;
  Codicon.package;
  Codicon.cloud;
  Codicon.book;
  Codicon.globe;
  Codicon.database;
  Codicon.notebook;

  (* misc *)
  Codicon.gift;
  Codicon.send;
  Codicon.briefcase;
  Codicon.megaphone;
  Codicon.comment;
  Codicon.telescope;
  Codicon.creditCard;
  Codicon.map;
  Codicon.deviceCameraVideo;
  Codicon.unmute;
  Codicon.law;
  Codicon.graphLine;
  Codicon.heart;
  Codicon.home;
  Codicon.inbox;
  Codicon.mortarBoard;
  Codicon.rocket;
  Codicon.magnet;
  Codicon.lock;
  Codicon.milestone;
  Codicon.tag;
  Codicon.pulse;
  Codicon.radioTower;
  Codicon.smiley;
  Codicon.symbolEvent;
  Codicon.squirrel;
  Codicon.symbolColor;
  Codicon.mail;
  Codicon.key;
  Codicon.pieChart;
  Codicon.organization;
  Codicon.preview;
  Codicon.wand;
  Codicon.starEmpty;
  Codicon.lightbulb;
  Codicon.symbolRuler;
  Codicon.dashboard;
  Codicon.calendar;
  Codicon.shield;
  Codicon.flame;
  Codicon.compass;
  Codicon.paintcan;
  Codicon.archive;
  Codicon.mic
].

(** ** The host: editors, services and the world they live in *)

(** Editors are objects with identity; the code holds references to them
    ([editor], [inputEditor], possibly the same object). *)
Definition EditorId : Type := nat.

Record Position : Type := { lineNumber : nat; column : nat }.

Record ITextModel : Type := { uri : string }.

(** The inline chat controller attached to an editor, reduced to what
    [focus()] changes. *)
Record InlineChatController : Type := { widgetFocused : bool }.

(** Modelled from the spec: the editor interface ([ICodeEditor]) is not
    among the sources; the spec lists the "editor instance" among the
    host's extension points and names what may be absent ("no focused
    input editor, no document, no DOM node").  This is the state of one
    editor as far as the help action reads or writes it: [getModel()],
    [getDomNode()] and [getPosition()] may each be [null]. *)
Record ICodeEditor : Type := {
  model : option ITextModel;
  domNode : option nat;
  position : option Position;
  focused : bool;
  inlineChatController : option InlineChatController;
}.

Record IChatWidget : Type := { inputEditor : EditorId }.

Record IChatWidgetService : Type := {
  lastFocusedWidget : option IChatWidget;
}.

Inductive AccessibleViewType : Type := HelpMenu | View.

Record IAccessibleViewOptions : Type := {
  type_ : AccessibleViewType;
  ariaLabel : string;
}.

(** The variables the [onClose] arrow function closes over, apart from
    [provider] (see [onClose] below). *)
Record OnCloseEnv : Type := {
  env_type : ChatType;
  env_cachedPosition : option Position;
  env_inputEditor : EditorId;
  env_editor : EditorId;
}.

(** The object literal handed to [registerProvider].  [provideContent] is
    the constant function [() => helpText]; [onClose] is kept as the
    environment of the closure, its body is [onClose] below. *)
Record IAccessibleContentProvider : Type := {
  id : ChatType;
  provideContent : string;
  onCloseEnv : OnCloseEnv;
  options : IAccessibleViewOptions;
}.

(** The [IDisposable] returned by [registerProvider]. *)
Record IDisposable : Type := { registration : nat }.

(** Modelled from the spec: the accessible-view service
    ([IAccessibleViewService]) is not among the sources.  The spec says the
    module "registers/disposes a view provider" and that closing the
    overlay disposes "a single registered resource": the service keeps the
    registered providers, each under the registration that its disposable
    stands for, and remembers which provider id it was last asked to
    show. *)
Record IAccessibleViewService : Type := {
  providers : gmap nat IAccessibleContentProvider;
  shown : option ChatType;
}.

(** What [accessor.get(...)] hands out. *)
Record ServicesAccessor : Type := {
  get_IKeybindingService : IKeybindingService;
  get_IChatWidgetService : IChatWidgetService;
  get_IAccessibleViewService : IAccessibleViewService;
}.

(** Everything mutable that the two modules can reach: the services, the
    editor objects, and the module-level array [ICONS] (a [const] binding
    to an ordinary, mutable JavaScript array). *)
Record World : Type := {
  accessor : ServicesAccessor;
  editors : EditorId → ICodeEditor;
  icons : list Codicon.t;
}.

(** The world right after [userDataProfileIcons.ts] has been loaded. *)
Definition load (accessor : ServicesAccessor)
    (editors : EditorId → ICodeEditor) : World :=
  {| accessor := accessor; editors := editors; icons := ICONS |}.

(** *** A state monad over the world *)

Definition M (A : Type) : Type := World → A * World.

#[global] Instance M_ret : MRet M := λ A a w, (a, w).
#[global] Instance M_bind : MBind M :=
  λ A B k m w, let '(a, w') := m w in k a w'.

Definition gets {A : Type} (f : World → A) : M A := λ w, (f w, w).
Definition modify (f : World → World) : M unit := λ w, ((), f w).

Definition with_accessibleViewService (f : IAccessibleViewService → IAccessibleViewService)
    (w : World) : World :=
  {| accessor :=
       {| get_IKeybindingService := get_IKeybindingService (accessor w);
          get_IChatWidgetService := get_IChatWidgetService (accessor w);
          get_IAccessibleViewService := f (get_IAccessibleViewService (accessor w)) |};
     editors := editors w;
     icons := icons w |}.

Definition with_editor (e : EditorId) (f : ICodeEditor → ICodeEditor)
    (w : World) : World :=
  {| accessor := accessor w;
     editors := <[e := f (editors w e)]> (editors w);
     icons := icons w |}.

(** *** Editor methods

    The methods of [ICodeEditor] that the module calls, over the editor
    state above: the getters read a field, [setPosition] and [focus] write
    one. *)

Definition getModel (e : EditorId) : M (option ITextModel) :=
  gets (λ w, model (editors w e)).

Definition getDomNode (e : EditorId) : M (option nat) :=
  gets (λ w, domNode (editors w e)).

Definition getPosition (e : EditorId) : M (option Position) :=
  gets (λ w, position (editors w e)).

(** [getSupportedActions()] only reads; the caller drops the result. *)
Definition getSupportedActions (e : EditorId) : M unit := mret ().

Definition setPosition (e : EditorId) (p : Position) : M unit :=
  modify (with_editor e (λ ed,
    {| model := model ed; domNode := domNode ed; position := Some p;
       focused := focused ed;
       inlineChatController := inlineChatController ed |})).

Definition focus (e : EditorId) : M unit :=
  modify (with_editor e (λ ed,
    {| model := model ed; domNode := domNode ed; position := position ed;
       focused := true;
       inlineChatController := inlineChatController ed |})).

(** [InlineChatController.get(editor)?.focus()]: nothing happens when the
    editor has no controller. *)
Definition InlineChatController_get_focus (e : EditorId) : M unit :=
  modify (with_editor e (λ ed,
    {| model := model ed; domNode := domNode ed; position := position ed;
       focused := focused ed;
       inlineChatController :=
         match inlineChatController ed with
         | Some _ => Some {| widgetFocused := true |}
         | None => None
         end |})).

(** *** Accessible-view service methods

    Over the service state above: [registerProvider] stores the provider
    under a registration that is not in use and returns the disposable for
    it, disposing removes that registration, [show] records the id. *)

Definition registerProvider (provider : IAccessibleContentProvider) : M IDisposable :=
  λ w,
    let r := fresh (dom (providers (get_IAccessibleViewService (accessor w)))) in
    ({| registration := r |},
     with_accessibleViewService (λ s,
       {| providers := <[r := provider]> (providers s); shown := shown s |}) w).

Definition dispose (d : IDisposable) : M unit :=
  modify (with_accessibleViewService (λ s,
    {| providers := delete (registration d) (providers s); shown := shown s |})).

Definition show (providerId : ChatType) : M unit :=
  modify (with_accessibleViewService (λ s,
    {| providers := providers s; shown := Some providerId |})).

(** The outcome of an [async] function. *)
Inductive Promise (A : Type) : Type :=
| Fulfilled (a : A)
| Rejected (reason : string).
Arguments Fulfilled {A} a.
Arguments Rejected {A} reason.

(** ** The accessibility-help module *)

(** [localize] of [vs/nls] and [format] of [vs/base/common/strings] are
    imported, not defined, by the module: the code is read against any
    implementation of them.  [localize key message args] and
    [format value args] take the substitution arguments as a list. *)
Class Nls : Type := {
  localize : string → string → list JsValue → string;
}.

Class Strings : Type := {
  format : string → list JsValue → string;
}.

Section accessibility_help.
Context `{!Nls, !Strings}.

Definition descriptionForCommand (commandId msg noKbMsg : string)
    (keybindingService : IKeybindingService) : string :=
  let kb := lookupKeybinding keybindingService commandId in
  match kb with
  | Some kb => format msg [ariaLabel_value kb]
  | None => format noKbMsg [JString commandId]
  end.

(** The sentences, in the order of the source. *)
Definition chat_overview : string :=
  localize "chat.overview" "The chat view is comprised of an input box and a request/response list. The input box is used to make requests and the list is used to display responses." [].

Definition chat_requestHistory : string :=
  localize "chat.requestHistory" "In the input box, use up and down arrows to navigate your request history. Edit input and use enter or the submit button to run a new request." [].

Definition chat_announcement : string :=
  localize "chat.announcement" "Chat responses will be announced as they come in. A response will indicate the number of code blocks, if any, and then the rest of the response." [].

Definition chat_focus (keybindingService : IKeybindingService) : string :=
  descriptionForCommand "chat.action.focus"
    (localize "workbench.action.chat.focus" "The Focus Chat command ({0}) focuses the chat request/response list, which can be navigated with up and down arrows." [])
    (localize "workbench.action.chat.focusNoKb" "The Focus Chat List command focuses the chat request/response list, which can be navigated with UpArrow/DownArrow and is currently not triggerable by a keybinding." [])
    keybindingService.

Definition chat_focusInput (keybindingService : IKeybindingService) : string :=
  descriptionForCommand "workbench.action.chat.focusInput"
    (localize "workbench.action.chat.focusInput" "The Focus Chat Input command ({0}) focuses the input box for chat requests." [])
    (localize "workbench.action.interactiveSession.focusInputNoKb" "Focus Chat Input command focuses the input box for chat requests and is currently not triggerable by a keybinding." [])
    keybindingService.

Definition chat_nextCodeBlock (keybindingService : IKeybindingService) : string :=
  descriptionForCommand "workbench.action.chat.nextCodeBlock"
    (localize "workbench.action.chat.nextCodeBlock" "The Chat: Next Code Block command ({0}) focuses the next code block within a response." [])
    (localize "workbench.action.chat.nextCodeBlockNoKb" "The Chat: Next Code Block command focuses the next code block within a response and is currently not triggerable by a keybinding." [])
    keybindingService.

Definition chat_clear (keybindingService : IKeybindingService) : string :=
  descriptionForCommand "workbench.action.chat.clear"
    (localize "workbench.action.chat.clear" "The Chat Clear command ({0}) clears the request/response list." [])
    (localize "workbench.action.chat.clearNoKb" "The Chat Clear command clears the request/response list and is currently not triggerable by a keybinding." [])
    keybindingService.

Definition inlineChat_overview : string :=
  localize "inlineChat.overview" "Inline chat occurs within a code editor and takes into account the current selection. It is useful for making changes to the current editor. For example, fixing diagnostics, documenting or refactoring code. Keep in mind that AI generated code may be incorrect." [].

Definition inlineChat_access (startChatKeybinding : JsValue) : string :=
  localize "inlineChat.access" "It can be activated via code actions or directly using the command: Inline Chat: Start Code Chat ({0})." [startChatKeybinding].

(** Line 36 calls [localize] with the key and the message only: its
    closing parenthesis comes before the two keybindings. *)
Definition inlineChat_requestHistory : string :=
  localize "inlineChat.requestHistory" "In the input box, use {0} and {1} to navigate your request history. Edit input and use enter or the submit button to run a new request." [].

Definition inlineChat_contextActions : string :=
  localize "inlineChat.contextActions" "Context menu actions may run a request prefixed with /fix or /explain. Type / to discover more ready-made commands." [].

Definition inlineChat_fix : string :=
  localize "inlineChat.fix" "When a request is prefixed with /fix, a response will indicate the problem with the current code. A diff editor will be rendered and can be reached by tabbing." [].

Definition inlineChat_diff (diffReviewKeybinding : JsValue) : string :=
  localize "inlineChat.diff" "Once in the diff editor, enter review mode with ({0}). Use up and down arrows to navigate lines with the proposed changes." [diffReviewKeybinding].

Definition inlineChat_diffNoKb : string :=
  localize "inlineChat.diffNoKb" "Tab again to enter the Diff editor with the changes and enter review mode with the Go to Next Difference Command. Use Up/DownArrow to navigate lines with the proposed changes." [].

Definition inlineChat_explain : string :=
  localize "inlineChat.explain" "When a request is prefixed with /explain, a response will explain the code in the current selection and the chat view will be focused." [].

Definition inlineChat_toolbar : string :=
  localize "inlineChat.toolbar" "Use tab to reach conditional parts like commands, status, message responses and more." [].

Definition chat_audioCues : string :=
  localize "chat.audioCues" "Audio cues can be changed via settings with a prefix of audioCues.chat. By default, if a request takes more than 5 seconds, you will hear an audio cue indicating that progress is still occurring." [].

(** The array [content] as it stands when [join] is called. *)
Definition helpContent (accessor : ServicesAccessor) (type : ChatType)
    : list JsValue :=
  let keybindingService := get_IKeybindingService accessor in
  let content := [] in
  let content :=
    match type with
    | panelChat =>
        let content := push content [JString chat_overview] in
        let content := push content [JString chat_requestHistory] in
        let content := push content [JString chat_announcement] in
        let content := push content [JString (chat_focus keybindingService)] in
        let content := push content [JString (chat_focusInput keybindingService)] in
        let content := push content [JString (chat_nextCodeBlock keybindingService)] in
        let content := push content [JString (chat_clear keybindingService)] in
        content
    | inlineChat =>
        let startChatKeybinding :=
          lookupAriaLabel keybindingService "inlineChat.start" in
        let content := push content [JString inlineChat_overview] in
        let content := push content [JString (inlineChat_access startChatKeybinding)] in
        let upHistoryKeybinding :=
          lookupAriaLabel keybindingService "inlineChat.previousFromHistory" in
        let downHistoryKeybinding :=
          lookupAriaLabel keybindingService "inlineChat.nextFromHistory" in
        let content :=
          if truthy upHistoryKeybinding && truthy downHistoryKeybinding
          then push content [JString inlineChat_requestHistory;
                             upHistoryKeybinding; downHistoryKeybinding]
          else content in
        let content := push content [JString inlineChat_contextActions] in
        let content := push content [JString inlineChat_fix] in
        let diffReviewKeybinding :=
          lookupAriaLabel keybindingService "editor.action.diffReview.next" in
        let content :=
          push content [JString (if truthy diffReviewKeybinding
                                 then inlineChat_diff diffReviewKeybinding
                                 else inlineChat_diffNoKb)] in
        let content := push content [JString inlineChat_explain] in
        let content := push content [JString inlineChat_toolbar] in
        content
    end in
  let content := push content [JString chat_audioCues] in
  content.

Definition getAccessibilityHelpText (accessor : ServicesAccessor)
    (type : ChatType) : string :=
  join newline (helpContent accessor type).

(** The body of the [onClose] arrow function.  Its free variable
    [provider] is bound, by the time the overlay can close, to the
    disposable that [registerProvider] returned for this very object. *)
Definition onClose (env : OnCloseEnv) (provider : IDisposable) : M unit :=
  match env_type env, env_cachedPosition env with
  | panelChat, Some cachedPosition =>
      setPosition (env_inputEditor env) cachedPosition;;
      focus (env_inputEditor env)
  | inlineChat, _ =>
      InlineChatController_get_focus (env_editor env)
  | panelChat, None => mret ()
  end;;
  dispose provider.

Definition runAccessibilityHelpAction (editor : EditorId) (type : ChatType)
    : M (Promise unit) :=
  widgetService ← gets (λ w, get_IChatWidgetService (accessor w));
  let inputEditor : option EditorId :=
    match type with
    | panelChat => inputEditor <$> lastFocusedWidget widgetService
    | inlineChat => Some editor
    end in
  editorModel ← getModel editor;
  let editorUri := uri <$> editorModel in
  match inputEditor, editorUri with
  | Some inputEditor, Some _ =>
      domNode ← getDomNode inputEditor;
      match domNode with
      | None => mret (Fulfilled ())
      | Some _ =>
          cachedPosition ← getPosition inputEditor;
          getSupportedActions inputEditor;;
          helpText ← gets (λ w, getAccessibilityHelpText (accessor w) type);
          provider ← registerProvider
            {| id := type;
               provideContent := helpText;
               onCloseEnv :=
                 {| env_type := type;
                    env_cachedPosition := cachedPosition;
                    env_inputEditor := inputEditor;
                    env_editor := editor |};
               options :=
                 {| type_ := HelpMenu;
                    ariaLabel :=
                      match type with
                      | panelChat => localize "chat-help-label" "Chat accessibility help" []
                      | inlineChat => localize "inline-chat-label" "Inline chat accessibility help" []
                      end |} |};
          show type;;
          mret (Fulfilled ())
      end
  | _, _ => mret (Fulfilled ())
  end.

(** The overlay closes: the service calls [onClose] of the provider
    registered under [r]. *)
Definition close (r : nat) : M unit :=
  λ w,
    match providers (get_IAccessibleViewService (accessor w)) !! r with
    | Some p => onClose (onCloseEnv p) {| registration := r |} w
    | None => ((), w)
    end.

(** The operations of the two modules that can run once the world is
    loaded: the help action, and the closing of a registered overlay. *)
Inductive step : World → World → Prop :=
| step_run editor type w :
    step w (runAccessibilityHelpAction editor type w).2
| step_close r w :
    step w (close r w).2.

End accessibility_help.

(** ** A reference implementation of the imported string functions *)

Definition is_digit (c : ascii) : bool :=
  (48 <=? nat_of_ascii c) && (nat_of_ascii c <=? 57).

(** The decimal number written by a string of digits. *)
Fixpoint parse_index (acc : nat) (digits : string) : nat :=
  match digits with
  | EmptyString => acc
  | String c rest => parse_index (10 * acc + (nat_of_ascii c - 48)) rest
  end.

(** What a placeholder [{digits}] becomes: [String(args[i])] when the
    index is in range, the placeholder itself otherwise. *)
Definition placeholder (args : list JsValue) (digits : string) : string :=
  match args !! parse_index 0 digits with
  | Some v => toString v
  | None => "{" +:+ digits +:+ "}"
  end.

(** One left-to-right pass.  [pending] holds the digits read since an
    opening brace that may still turn out to be a placeholder. *)
Fixpoint substitute_from (args : list JsValue) (pending : option string)
    (s : string) : string :=
  match s with
  | EmptyString =>
      match pending with
      | None => EmptyString
      | Some digits => "{" +:+ digits
      end
  | String c rest =>
      match pending with
      | None =>
          if Ascii.eqb c "{" then substitute_from args (Some EmptyString) rest
          else String c (substitute_from args None rest)
      | Some digits =>
          if is_digit c
          then substitute_from args (Some (digits +:+ String c EmptyString)) rest
          else if Ascii.eqb c "}" && negb (String.eqb digits EmptyString)
          then placeholder args digits +:+ substitute_from args None rest
          else "{" +:+ digits +:+
               (if Ascii.eqb c "{" then substitute_from args (Some EmptyString) rest
                else String c (substitute_from args None rest))
      end
  end.

(** Modelled from the spec: [localize] ([vs/nls]) and [format]
    ([vs/base/common/strings]) are not among the sources.  The spec
    describes them as producing "localized strings" and as "format strings
    with already-validated substitution values": a message is returned
    as it is when there are no substitution values, and otherwise each
    placeholder [{i}] is replaced by the [i]-th value. *)
Definition substitute (message : string) (args : list JsValue) : string :=
  match args with
  | [] => message
  | _ :: _ => substitute_from args None message
  end.

(** The default (English) bundle: the key is ignored. *)
Definition nls_default : Nls :=
  {| localize := λ _key message args, substitute message args |}.

Definition strings_default : Strings := {| format := substitute |}.

(** ** Sample hosts *)

Definition keybinding (label : string) : ResolvedKeybinding :=
  {| getLabel := Some label; getAriaLabel := Some label |}.

(** No command has a keybinding. *)
Definition no_keybindings : IKeybindingService :=
  {| lookupKeybinding := λ _, None |}.

(** A service backed by a table. *)
Definition keybindings_of (table : gmap string ResolvedKeybinding)
    : IKeybindingService :=
  {| lookupKeybinding := λ commandId, table !! commandId |}.

(** Both history commands of the inline chat are bound. *)
Definition history_keybindings : IKeybindingService :=
  keybindings_of
    (<["inlineChat.previousFromHistory" := keybinding "Control+UpArrow"]>
     (<["inlineChat.nextFromHistory" := keybinding "Control+DownArrow"]> ∅)).

Definition accessor_with (keybindingService : IKeybindingService)
    (widget : option IChatWidget) : ServicesAccessor :=
  {| get_IKeybindingService := keybindingService;
     get_IChatWidgetService := {| lastFocusedWidget := widget |};
     get_IAccessibleViewService := {| providers := ∅; shown := None |} |}.

(** An editor with a document, a DOM node and a cursor. *)
Definition ready_editor : ICodeEditor :=
  {| model := Some {| uri := "file:///a.ts" |};
     domNode := Some 1;
     position := Some {| lineNumber := 3; column := 7 |};
     focused := false;
     inlineChatController := Some {| widgetFocused := false |} |}.

(** An editor that has not been attached yet. *)
Definition detached_editor : ICodeEditor :=
  {| model := None; domNode := None; position := None; focused := false;
     inlineChatController := None |}.

(** A service that answers like [history_keybindings] but whose
    keybindings have no display label, only the aria label. *)
Definition aria_only_keybindings : IKeybindingService :=
  {| lookupKeybinding := λ commandId,
       (λ kb, {| getLabel := None; getAriaLabel := getAriaLabel kb |})
       <$> lookupKeybinding history_keybindings commandId |}.

(** The sample world: every editor is ready, nothing is registered, and
    no chat widget has had the focus. *)
Definition sample_world : World :=
  load (accessor_with history_keybindings None) (λ _, ready_editor).

(** ** Observations on the world *)

Definition registry (w : World) : gmap nat IAccessibleContentProvider :=
  providers (get_IAccessibleViewService (accessor w)).

Definition shownView (w : World) : option ChatType :=
  shown (get_IAccessibleViewService (accessor w)).

(** The [inputEditor] that [runAccessibilityHelpAction] selects. *)
Definition chosenInputEditor (w : World) (editor : EditorId) (type : ChatType)
    : option EditorId :=
  match type with
  | panelChat => inputEditor <$> lastFocusedWidget (get_IChatWidgetService (accessor w))
  | inlineChat => Some editor
  end.

(** The command [commandId] resolves to the label [label]. *)
Definition resolves_to (keybindingService : IKeybindingService)
    (commandId label : string) : Prop :=
  lookupAriaLabel keybindingService commandId = JString label.

(** JavaScript's [indexOf]: the first position of [x], if any. *)
Fixpoint indexOf {A : Type} `{!EqDecision A} (x : A) (l : list A) : option nat :=
  match l with
  | [] => None
  | y :: l' => if decide (x = y) then Some 0 else S <$> indexOf x l'
  end.

(** The command ids whose keybinding the help text of a mode looks up,
    in the order of the [lookupKeybinding] calls of the source. *)
Definition consultedCommands (type : ChatType) : list string :=
  match type with
  | panelChat =>
      [ "chat.action.focus";
        "workbench.action.chat.focusInput";
        "workbench.action.chat.nextCodeBlock";
        "workbench.action.chat.clear" ]
  | inlineChat =>
      [ "inlineChat.start";
        "inlineChat.previousFromHistory";
        "inlineChat.nextFromHistory";
        "editor.action.diffReview.next" ]
  end.

(** Every element of [content] is free of line feeds. *)
Definition single_lines (content : list JsValue) : Prop :=
  Forall (λ v, free_of LF (join_item v) = true) content.

(** A world in which the chat widget whose input editor is editor 1 was
    the last one focused. *)
Definition panel_world : World :=
  load (accessor_with history_keybindings (Some {| inputEditor := 1 |}))
       (λ _, ready_editor).

(** A world in which the input editor of the last focused widget, editor
    1, has no cursor position; the other editors are ready. *)
Definition no_position_world : World :=
  load (accessor_with history_keybindings (Some {| inputEditor := 1 |}))
       (<[1 := {| model := Some {| uri := "file:///a.ts" |};
                  domNode := Some 1;
                  position := None;
                  focused := false;
                  inlineChatController := None |}]> (λ _, ready_editor)).

(** The previous-from-history command is bound, but to a keybinding whose
    aria label is the empty string. *)
Definition empty_label_keybindings : IKeybindingService :=
  keybindings_of
    (<["inlineChat.previousFromHistory" := keybinding EmptyString]>
     (<["inlineChat.nextFromHistory" := keybinding "Control+DownArrow"]> ∅)).

(** * Properties *)

(** ** Strings, [join] and [split] *)

Lemma append_nil_l (b : string) : EmptyString +:+ b = b.
Proof. reflexivity. Qed.

Lemma append_cons (x : ascii) (a b : string) :
  String x a +:+ b = String x (a +:+ b).
Proof. reflexivity. Qed.

Lemma append_assoc (a b c : string) : (a +:+ b) +:+ c = a +:+ (b +:+ c).
Proof.
  induction a as [|x a IH]; [done |].
  by rewrite !append_cons, IH.
Qed.

Lemma append_not_empty (a b : string) :
  b ≠ EmptyString → a +:+ b ≠ EmptyString.
Proof. destruct a; [done | by rewrite append_cons]. Qed.

Lemma join_cons_cons (sep : string) (v v' : JsValue) (l : list JsValue) :
  join sep (v :: v' :: l) = join_item v +:+ sep +:+ join sep (v' :: l).
Proof. done. Qed.

(** Joining [l ++ [v]], for a non-empty [l], puts the separator and then
    [v] after the joined [l]. *)
Lemma join_snoc (sep : string) (l : list JsValue) (v : JsValue) :
  l ≠ [] → join sep (l ++ [v]) = join sep l +:+ sep +:+ join_item v.
Proof.
  induction l as [|x l IH]; [done | intros _].
  destruct l as [|y l]; [done |].
  change ((x :: y :: l) ++ [v]) with (x :: y :: (l ++ [v])).
  rewrite !join_cons_cons.
  change (y :: l ++ [v]) with ((y :: l) ++ [v]).
  rewrite IH by done. by rewrite !append_assoc.
Qed.

Lemma split_not_nil (sep : ascii) (s : string) : split sep s ≠ [].
Proof.
  destruct s as [|c s]; simpl; [done |].
  destruct (Ascii.eqb c sep); [done |]. by destruct (split sep s).
Qed.

(** A string without the separator is its own single piece. *)
Lemma split_free_of (sep : ascii) (s : string) :
  free_of sep s = true → split sep s = [s].
Proof.
  induction s as [|c s IH]; simpl; [done |].
  intros [Hc Hs]%andb_prop. apply negb_true_iff in Hc.
  by rewrite Hc, IH.
Qed.

(** Splitting distributes over a separator between two strings. *)
Lemma split_append (sep : ascii) (a b : string) :
  split sep (a +:+ String sep b) = split sep a ++ split sep b.
Proof.
  induction a as [|c a IH].
  - rewrite append_nil_l. simpl. by rewrite Ascii.eqb_refl.
  - rewrite append_cons. simpl.
    destruct (Ascii.eqb c sep); [by rewrite IH |].
    rewrite IH. pose proof (split_not_nil sep a) as Hne.
    by destruct (split sep a).
Qed.

(** The last piece of [a ++ sep ++ b] is [b] when [b] has no separator. *)
Lemma last_split_append (sep : ascii) (a b : string) :
  free_of sep b = true →
  last (split sep (a +:+ String sep EmptyString +:+ b)) = Some b.
Proof.
  intros Hb. rewrite append_cons, append_nil_l.
  rewrite split_append, (split_free_of _ b Hb).
  apply last_snoc.
Qed.

(** ** The reference substitution *)

Lemma substitute_from_plain (args : list JsValue) (s : string) :
  free_of "{" s = true → substitute_from args None s = s.
Proof.
  induction s as [|c s IH]; simpl; [done |].
  intros [Hc Hs]%andb_prop. apply negb_true_iff in Hc.
  by rewrite Hc, IH.
Qed.

(** A message [before{0}after] whose two parts have no brace, formatted
    with one value, is [before], the value as a string, and [after]. *)
Lemma substitute_placeholder_0 (before after : string) (v : JsValue) :
  free_of "{" before = true → free_of "{" after = true →
  substitute (before +:+ "{0}" +:+ after) [v] = before +:+ toString v +:+ after.
Proof.
  intros Hb Ha. unfold substitute.
  induction before as [|c s IH].
  - rewrite !append_nil_l, !append_cons. simpl.
    by rewrite append_nil_l, substitute_from_plain.
  - simpl in Hb. apply andb_prop in Hb as [Hc Hs]. apply negb_true_iff in Hc.
    rewrite !(append_cons c). simpl. by rewrite Hc, IH.
Qed.

(** Without substitution values the message is returned untouched, braces
    included. *)
Lemma substitute_no_args (message : string) : substitute message [] = message.
Proof. done. Qed.

(** ** The help text *)

Section help_text.
Context `{!Nls, !Strings}.
Implicit Types (accessor : ServicesAccessor) (type : ChatType).
Implicit Types (keybindingService : IKeybindingService).

(** [descriptionForCommand] sees a lookup only through
    [lookupKeybinding(id)?.getAriaLabel()]: [undefined] means there is no
    keybinding, anything else is the substitution value. *)
Lemma descriptionForCommand_lookupAriaLabel commandId msg noKbMsg keybindingService :
  descriptionForCommand commandId msg noKbMsg keybindingService =
  match lookupAriaLabel keybindingService commandId with
  | JUndefined => format noKbMsg [JString commandId]
  | v => format msg [v]
  end.
Proof.
  unfold descriptionForCommand, lookupAriaLabel, ariaLabel_value.
  destruct (lookupKeybinding keybindingService commandId) as [kb|]; [|done].
  by destruct (getAriaLabel kb).
Qed.

Lemma not_resolved_falsy keybindingService commandId :
  (∀ label, ¬ resolves_to keybindingService commandId label) →
  truthy (lookupAriaLabel keybindingService commandId) = false.
Proof.
  unfold resolves_to. intros Hno.
  destruct (lookupAriaLabel keybindingService commandId) as [label| |];
    [by destruct (Hno label) | done | done].
Qed.

(** The panel chat text is eight sentences. *)
Lemma helpContent_panelChat accessor :
  helpContent accessor panelChat =
  let keybindingService := get_IKeybindingService accessor in
  [ JString chat_overview;
    JString chat_requestHistory;
    JString chat_announcement;
    JString (chat_focus keybindingService);
    JString (chat_focusInput keybindingService);
    JString (chat_nextCodeBlock keybindingService);
    JString (chat_clear keybindingService);
    JString chat_audioCues ].
Proof. reflexivity. Qed.

(** The inline chat text when both history keybindings are truthy: the
    request-history sentence, then the two keybindings as array elements
    of their own. *)
Lemma helpContent_inlineChat_history accessor :
  let keybindingService := get_IKeybindingService accessor in
  let up := lookupAriaLabel keybindingService "inlineChat.previousFromHistory" in
  let down := lookupAriaLabel keybindingService "inlineChat.nextFromHistory" in
  let diffReview := lookupAriaLabel keybindingService "editor.action.diffReview.next" in
  truthy up = true → truthy down = true →
  helpContent accessor inlineChat =
  [ JString inlineChat_overview;
    JString (inlineChat_access (lookupAriaLabel keybindingService "inlineChat.start"));
    JString inlineChat_requestHistory;
    up;
    down;
    JString inlineChat_contextActions;
    JString inlineChat_fix;
    JString (if truthy diffReview then inlineChat_diff diffReview else inlineChat_diffNoKb);
    JString inlineChat_explain;
    JString inlineChat_toolbar;
    JString chat_audioCues ].
Proof.
  intros ks up down diffReview Hup Hdown.
  unfold helpContent. fold ks. fold up down. by rewrite Hup, Hdown.
Qed.

(** The inline chat text when one of them is falsy. *)
Lemma helpContent_inlineChat_no_history accessor :
  let keybindingService := get_IKeybindingService accessor in
  let up := lookupAriaLabel keybindingService "inlineChat.previousFromHistory" in
  let down := lookupAriaLabel keybindingService "inlineChat.nextFromHistory" in
  let diffReview := lookupAriaLabel keybindingService "editor.action.diffReview.next" in
  truthy up && truthy down = false →
  helpContent accessor inlineChat =
  [ JString inlineChat_overview;
    JString (inlineChat_access (lookupAriaLabel keybindingService "inlineChat.start"));
    JString inlineChat_contextActions;
    JString inlineChat_fix;
    JString (if truthy diffReview then inlineChat_diff diffReview else inlineChat_diffNoKb);
    JString inlineChat_explain;
    JString inlineChat_toolbar;
    JString chat_audioCues ].
Proof.
  intros ks up down diffReview Hfalsy.
  unfold helpContent. fold ks. fold up down. by rewrite Hfalsy.
Qed.

(** Whatever the mode and the keybindings, [content] is a non-empty
    array followed by the audio-cues sentence. *)
Lemma helpContent_snoc accessor type :
  ∃ body, body ≠ [] ∧ helpContent accessor type = body ++ [JString chat_audioCues].
Proof.
  unfold helpContent. cbv zeta. unfold push at 1.
  eexists. split; [| reflexivity].
  destruct type; [done |].
  by destruct (truthy _ && truthy _).
Qed.

(** C4: [descriptionForCommand] returns the with-keybinding message
    formatted with the keybinding's aria label when the keybinding
    service resolves the command id (the label itself, or [null] when
    the keybinding has no aria label), and the no-keybinding message
    formatted with the command id when it does not. *)
Theorem descriptionForCommand_cases commandId msg noKbMsg keybindingService :
  (∀ kb label,
     lookupKeybinding keybindingService commandId = Some kb →
     getAriaLabel kb = Some label →
     descriptionForCommand commandId msg noKbMsg keybindingService =
     format msg [JString label]) ∧
  (∀ kb,
     lookupKeybinding keybindingService commandId = Some kb →
     getAriaLabel kb = None →
     descriptionForCommand commandId msg noKbMsg keybindingService =
     format msg [JNull]) ∧
  (lookupKeybinding keybindingService commandId = None →
     descriptionForCommand commandId msg noKbMsg keybindingService =
     format noKbMsg [JString commandId]).
Proof.
  unfold descriptionForCommand, ariaLabel_value.
  repeat split.
  - by intros kb label -> ->.
  - by intros kb -> ->.
  - by intros ->.
Qed.

(** C8: the help text is a function of the mode flag and of what the
    keybinding service answers: two accessors whose keybinding services
    give the same aria label for every command id yield the same text,
    whatever else the accessors hold. *)
Theorem getAccessibilityHelpText_deterministic accessor1 accessor2 type :
  (∀ commandId,
     lookupAriaLabel (get_IKeybindingService accessor1) commandId =
     lookupAriaLabel (get_IKeybindingService accessor2) commandId) →
  getAccessibilityHelpText accessor1 type = getAccessibilityHelpText accessor2 type.
Proof.
  intros Hsame. unfold getAccessibilityHelpText. f_equal.
  unfold helpContent, chat_focus, chat_focusInput, chat_nextCodeBlock, chat_clear.
  destruct type; cbv zeta.
  - by rewrite !descriptionForCommand_lookupAriaLabel, !Hsame.
  - by rewrite !Hsame.
Qed.

(** C9: in both modes and for every keybinding service the help text is
    not the empty string; it ends with a line feed followed by the
    audio-cues sentence, so that sentence is its last line whenever the
    localized sentence itself has no line feed. *)
Theorem getAccessibilityHelpText_last_line accessor type :
  getAccessibilityHelpText accessor type ≠ EmptyString ∧
  (∃ before,
     getAccessibilityHelpText accessor type = before +:+ newline +:+ chat_audioCues) ∧
  (free_of LF chat_audioCues = true →
   last (split LF (getAccessibilityHelpText accessor type)) = Some chat_audioCues).
Proof.
  unfold getAccessibilityHelpText.
  destruct (helpContent_snoc accessor type) as (body & Hbody & ->).
  rewrite join_snoc by done. simpl join_item.
  split; [| split].
  - apply append_not_empty. unfold newline. by rewrite append_cons.
  - by exists (join newline body).
  - intros Hline. by apply last_split_append.
Qed.

(** C10: in the inline mode, when the previous-from-history or the
    next-from-history command does not resolve to a label, the returned
    text is the eight other sentences joined by line feeds: nothing is
    pushed for the request history. *)
Theorem request_history_omitted accessor :
  let keybindingService := get_IKeybindingService accessor in
  let diffReview := lookupAriaLabel keybindingService "editor.action.diffReview.next" in
  (∀ label, ¬ resolves_to keybindingService "inlineChat.previousFromHistory" label) ∨
  (∀ label, ¬ resolves_to keybindingService "inlineChat.nextFromHistory" label) →
  getAccessibilityHelpText accessor inlineChat =
  join newline
    [ JString inlineChat_overview;
      JString (inlineChat_access (lookupAriaLabel keybindingService "inlineChat.start"));
      JString inlineChat_contextActions;
      JString inlineChat_fix;
      JString (if truthy diffReview then inlineChat_diff diffReview else inlineChat_diffNoKb);
      JString inlineChat_explain;
      JString inlineChat_toolbar;
      JString chat_audioCues ].
Proof.
  intros ks diffReview Hno.
  unfold getAccessibilityHelpText. f_equal.
  apply helpContent_inlineChat_no_history. fold ks.
  destruct Hno as [Hno | Hno]; apply not_resolved_falsy in Hno; rewrite Hno.
  - done.
  - apply andb_false_r.
Qed.

End help_text.

(** ** The help action *)

(** Unfolds the monadic operations down to functions on worlds. *)
Ltac unfold_M :=
  unfold mbind, M_bind, getModel, getDomNode, getPosition,
    getSupportedActions, setPosition, focus, InlineChatController_get_focus,
    dispose, show, modify, gets, mret, M_ret;
  cbv beta iota zeta.

Section help_action.
Context `{!Nls, !Strings}.
Implicit Types (w : World) (editor : EditorId) (type : ChatType).

(** The provider that [runAccessibilityHelpAction] builds in [w]. *)
Lemma runAccessibilityHelpAction_registers editor type w inputEditor m d :
  chosenInputEditor w editor type = Some inputEditor →
  model (editors w editor) = Some m →
  domNode (editors w inputEditor) = Some d →
  ∃ p,
    id p = type ∧
    provideContent p = getAccessibilityHelpText (accessor w) type ∧
    onCloseEnv p =
      {| env_type := type;
         env_cachedPosition := position (editors w inputEditor);
         env_inputEditor := inputEditor;
         env_editor := editor |} ∧
    runAccessibilityHelpAction editor type w =
    (Fulfilled (), (show type (registerProvider p w).2).2).
Proof.
  intros Hinput Hmodel Hdom.
  unfold runAccessibilityHelpAction, chosenInputEditor in *. unfold_M.
  rewrite Hinput, Hmodel. cbn [fmap option_fmap option_map].
  rewrite Hdom. cbv beta iota zeta.
  eexists. split; [| split; [| split]].
  4: reflexivity.
  all: reflexivity.
Qed.

(** [onClose] ends by disposing the disposable it was given, whichever
    branch it took before. *)
Lemma onClose_registry env provider w :
  registry (onClose env provider w).2 = delete (registration provider) (registry w).
Proof.
  unfold onClose. destruct (env_type env), (env_cachedPosition env); reflexivity.
Qed.

(** In the panel mode with a cached position, [onClose] puts the cursor of
    the input editor back and focuses it. *)
Lemma onClose_panelChat_restores env provider w cachedPosition :
  env_type env = panelChat →
  env_cachedPosition env = Some cachedPosition →
  let w' := (onClose env provider w).2 in
  position (editors w' (env_inputEditor env)) = Some cachedPosition ∧
  focused (editors w' (env_inputEditor env)) = true.
Proof.
  intros Htype Hpos. unfold onClose. rewrite Htype, Hpos. unfold_M.
  unfold with_editor, with_accessibleViewService. simpl.
  by rewrite !fn_lookup_insert.
Qed.

(** In the inline mode, [onClose] focuses the inline chat of [editor] when
    it has a controller, and leaves every editor's cursor alone. *)
Lemma onClose_inlineChat_focuses env provider w :
  env_type env = inlineChat →
  let w' := (onClose env provider w).2 in
  inlineChatController (editors w' (env_editor env)) =
    (λ _, {| widgetFocused := true |}) <$> inlineChatController (editors w (env_editor env)) ∧
  (∀ e, position (editors w' e) = position (editors w e)).
Proof.
  intros Htype. unfold onClose. rewrite Htype. unfold_M.
  unfold with_editor, with_accessibleViewService. simpl. split.
  - rewrite fn_lookup_insert. simpl.
    by destruct (inlineChatController (editors w (env_editor env))).
  - intros e. destruct (decide (env_editor env = e)) as [<- | Hne].
    + by rewrite fn_lookup_insert.
    + by rewrite fn_lookup_insert_ne.
Qed.

(** When the guards pass, the view that ends up shown is the one of the
    mode, and its content is the help text. *)
Lemma runAccessibilityHelpAction_shows editor type w inputEditor m d :
  chosenInputEditor w editor type = Some inputEditor →
  model (editors w editor) = Some m →
  domNode (editors w inputEditor) = Some d →
  shownView (runAccessibilityHelpAction editor type w).2 = Some type.
Proof.
  intros Hinput Hmodel Hdom.
  destruct (runAccessibilityHelpAction_registers _ _ _ _ _ _ Hinput Hmodel Hdom)
    as (p & _ & _ & _ & ->).
  reflexivity.
Qed.

(** Closing a registered overlay removes its registration. *)
Lemma close_registry r p w :
  registry w !! r = Some p → registry (close r w).2 = delete r (registry w).
Proof.
  intros Hp. unfold close. unfold registry in Hp. rewrite Hp.
  apply onClose_registry.
Qed.

Lemma step_icons w w' : step w w' → icons w' = icons w.
Proof.
  intros Hstep. destruct Hstep as [editor type w | r w].
  - unfold runAccessibilityHelpAction. unfold_M.
    destruct type; simpl;
      repeat match goal with
             | |- context [match ?x with _ => _ end] => destruct x; simpl
             end; reflexivity.
  - unfold close.
    destruct (providers _ !! r) as [p|]; [| reflexivity].
    unfold onClose.
    destruct (env_type (onCloseEnv p)), (env_cachedPosition (onCloseEnv p));
      reflexivity.
Qed.

(** C2: when there is no input editor for the chosen mode, or the
    passed editor has no model (hence no URI), or the input editor has
    no DOM node, the action completes without an error and leaves the
    world as it was: no provider is registered, no view is shown, and
    no editor changes position or focus. *)
Theorem runAccessibilityHelpAction_absent editor type w :
  chosenInputEditor w editor type = None ∨
  model (editors w editor) = None ∨
  (∃ inputEditor,
     chosenInputEditor w editor type = Some inputEditor ∧
     domNode (editors w inputEditor) = None) →
  let w' := (runAccessibilityHelpAction editor type w).2 in
  (runAccessibilityHelpAction editor type w).1 = Fulfilled () ∧
  w' = w ∧
  registry w' = registry w ∧
  shownView w' = shownView w ∧
  (∀ e, position (editors w' e) = position (editors w e) ∧
        focused (editors w' e) = focused (editors w e)).
Proof.
  intros Habsent.
  assert (runAccessibilityHelpAction editor type w = (Fulfilled (), w)) as ->.
  { unfold runAccessibilityHelpAction, chosenInputEditor in *. unfold_M.
    destruct Habsent as [Hinput | [Hmodel | (inputEditor & Hinput & Hdom)]].
    - by rewrite Hinput.
    - rewrite Hmodel. cbn [fmap option_fmap option_map].
      by destruct (match type with panelChat => _ | inlineChat => _ end).
    - rewrite Hinput.
      destruct (uri <$> model (editors w editor)); [| done].
      by rewrite Hdom. }
  done.
Qed.

(** C3: when the guards pass, the action registers one provider, whose
    id is the mode, under a registration that was free; in either mode,
    and in whatever world the overlay closes, running that provider's
    [onClose] removes exactly this registration from the registry and
    keeps every other one.  Closing right after the action gives back
    the registry from before the action. *)
Theorem onClose_disposes_registered_provider editor type w inputEditor m d :
  chosenInputEditor w editor type = Some inputEditor →
  model (editors w editor) = Some m →
  domNode (editors w inputEditor) = Some d →
  let w1 := (runAccessibilityHelpAction editor type w).2 in
  ∃ r p,
    registry w !! r = None ∧
    registry w1 = <[r := p]> (registry w) ∧
    id p = type ∧
    env_type (onCloseEnv p) = type ∧
    (∀ w2, registry (onClose (onCloseEnv p) {| registration := r |} w2).2
           = delete r (registry w2)) ∧
    registry (close r w1).2 = registry w.
Proof.
  intros Hinput Hmodel Hdom w1.
  destruct (runAccessibilityHelpAction_registers _ _ _ _ _ _ Hinput Hmodel Hdom)
    as (p & Hid & _ & Henv & Hrun).
  apply (f_equal env_type) in Henv. simpl in Henv.
  subst w1. rewrite Hrun. cbn [snd]. clear Hrun.
  set (r := fresh (dom (registry w))).
  assert (registry w !! r = None) as Hfresh.
  { apply not_elem_of_dom, is_fresh. }
  assert (registry (show type (registerProvider p w).2).2 = <[r := p]> (registry w))
    as Hreg by reflexivity.
  exists r, p. repeat split; try done.
  - intros w2. apply onClose_registry.
  - rewrite (close_registry r p) by (rewrite Hreg; apply lookup_insert_eq).
    rewrite Hreg. by apply delete_insert_id.
Qed.

(** C7: [ICONS] is installed when the world is loaded, and no sequence
    of operations of the two modules changes it: after any number of
    help actions and overlay closings the array is still the list
    [ICONS], with the same length, elements and order. *)
Theorem ICONS_never_mutated accessor editors w :
  rtc step (load accessor editors) w →
  icons w = ICONS ∧ length (icons w) = length ICONS.
Proof.
  intros Hsteps.
  assert (icons w = ICONS) as ->; [| done].
  revert w Hsteps. apply rtc_ind_r; [done |].
  intros w w' _ Hstep IH. by rewrite (step_icons _ _ Hstep).
Qed.

End help_action.

(** ** The request-history sentence of the inline chat *)

(** C1: with both history commands bound (to Control+UpArrow and
    Control+DownArrow), the request-history sentence is built by
    [localize] without any substitution value, whatever [localize] is, and
    the two labels follow it as array elements of their own.  With the
    reference [localize] the third line of the text still reads [{0}] and
    [{1}], the labels are the fourth and fifth lines, and no line is the
    sentence with the labels in place of the placeholders. *)
Theorem inlineChat_requestHistory_not_substituted :
  let accessor := accessor_with history_keybindings None in
  (∀ (nls : Nls) (strings : Strings),
     helpContent accessor inlineChat !! 2 =
       Some (JString (localize "inlineChat.requestHistory" "In the input box, use {0} and {1} to navigate your request history. Edit input and use enter or the submit button to run a new request." [])) ∧
     helpContent accessor inlineChat !! 3 = Some (JString "Control+UpArrow") ∧
     helpContent accessor inlineChat !! 4 = Some (JString "Control+DownArrow")) ∧
  let text := @getAccessibilityHelpText nls_default strings_default accessor inlineChat in
  split LF text !! 2 = Some "In the input box, use {0} and {1} to navigate your request history. Edit input and use enter or the submit button to run a new request." ∧
  split LF text !! 3 = Some "Control+UpArrow" ∧
  split LF text !! 4 = Some "Control+DownArrow" ∧
  "In the input box, use Control+UpArrow and Control+DownArrow to navigate your request history. Edit input and use enter or the submit button to run a new request." ∉ split LF text.
Proof.
  intros accessor. split.
  - intros nls strings.
    rewrite helpContent_inlineChat_history by reflexivity.
    cbv zeta. repeat split; reflexivity.
  - intros text. repeat split; try (vm_compute; reflexivity).
    apply (bool_decide_unpack _). vm_compute. exact I.
Qed.

(** ** The icon list *)

(** In a list without duplicates, [indexOf] finds every element at the
    position where it stands. *)
Lemma indexOf_lookup_NoDup {A : Type} `{!EqDecision A} (l : list A) (i : nat) (x : A) :
  NoDup l → l !! i = Some x → indexOf x l = Some i.
Proof.
  intros Hnodup. revert i.
  induction Hnodup as [|y l Hnotin _ IH]; intros i Hi; [done |].
  destruct i as [|i]; simpl in *.
  - injection Hi as ->. by rewrite decide_True.
  - rewrite decide_False.
    + by rewrite (IH i Hi).
    + intros ->. apply Hnotin. by eapply list_elem_of_lookup_2.
Qed.

(** C5: the elements of [ICONS] are pairwise distinct, there are 63 of
    them, and each stands at one fixed position of the list: looking an
    element up by [indexOf] gives back the position it was read from. *)
Theorem ICONS_distinct_in_order :
  NoDup ICONS ∧
  length ICONS = 63 ∧
  (∀ i x, ICONS !! i = Some x → indexOf x ICONS = Some i).
Proof.
  assert (NoDup ICONS) as Hnodup.
  { apply (bool_decide_unpack _). vm_compute. exact I. }
  split; [done |]. split; [reflexivity |].
  intros i x. by apply indexOf_lookup_NoDup.
Qed.

(** C6: [DEFAULT_ICON] is the first element of [ICONS], hence a member of
    it, and it occurs there once. *)
Theorem DEFAULT_ICON_first :
  head ICONS = Some DEFAULT_ICON ∧
  DEFAULT_ICON ∈ ICONS ∧
  indexOf DEFAULT_ICON ICONS = Some 0 ∧
  length (filter (λ icon, icon = DEFAULT_ICON) ICONS) = 1.
Proof.
  split; [reflexivity |]. split; [apply list_elem_of_here |].
  split; [reflexivity |]. vm_compute. reflexivity.
Qed.

(** ** The theorems at sample hosts *)

Lemma descriptionForCommand_cases_witness :
  @descriptionForCommand strings_default
    "inlineChat.nextFromHistory" "Next ({0})" "No keybinding for {0}"
    history_keybindings = "Next (Control+DownArrow)" ∧
  @descriptionForCommand strings_default
    "workbench.action.chat.clear" "Clear ({0})" "No keybinding for {0}"
    history_keybindings = "No keybinding for workbench.action.chat.clear".
Proof.
  split.
  - etrans.
    + apply (proj1 (@descriptionForCommand_cases strings_default
        "inlineChat.nextFromHistory" "Next ({0})" "No keybinding for {0}"
        history_keybindings) (keybinding "Control+DownArrow") "Control+DownArrow");
        reflexivity.
    + reflexivity.
  - etrans.
    + apply (proj2 (proj2 (@descriptionForCommand_cases strings_default
        "workbench.action.chat.clear" "Clear ({0})" "No keybinding for {0}"
        history_keybindings))); reflexivity.
    + reflexivity.
Defined.

Lemma getAccessibilityHelpText_deterministic_witness :
  (∀ commandId,
     lookupAriaLabel history_keybindings commandId =
     lookupAriaLabel aria_only_keybindings commandId) ∧
  @getAccessibilityHelpText nls_default strings_default
    (accessor_with history_keybindings None) inlineChat =
  @getAccessibilityHelpText nls_default strings_default
    (accessor_with aria_only_keybindings (Some {| inputEditor := 4 |})) inlineChat.
Proof.
  assert (∀ commandId,
            lookupAriaLabel history_keybindings commandId =
            lookupAriaLabel aria_only_keybindings commandId) as Hsame.
  { intros commandId. unfold lookupAriaLabel, aria_only_keybindings. simpl.
    by destruct (_ !! commandId). }
  split; [exact Hsame |].
  apply (@getAccessibilityHelpText_deterministic nls_default strings_default
           (accessor_with history_keybindings None)
           (accessor_with aria_only_keybindings (Some {| inputEditor := 4 |}))
           inlineChat Hsame).
Defined.

Lemma getAccessibilityHelpText_last_line_witness :
  free_of LF (@chat_audioCues nls_default) = true ∧
  last (split LF (@getAccessibilityHelpText nls_default strings_default
                    (accessor_with history_keybindings None) inlineChat))
  = Some "Audio cues can be changed via settings with a prefix of audioCues.chat. By default, if a request takes more than 5 seconds, you will hear an audio cue indicating that progress is still occurring.".
Proof.
  split; [reflexivity |].
  apply (proj2 (proj2 (@getAccessibilityHelpText_last_line nls_default strings_default
                         (accessor_with history_keybindings None) inlineChat))).
  reflexivity.
Defined.

Lemma request_history_omitted_witness :
  (∀ label, ¬ resolves_to no_keybindings "inlineChat.previousFromHistory" label) ∧
  @getAccessibilityHelpText nls_default strings_default
    (accessor_with no_keybindings None) inlineChat =
  join newline
    [ JString (@inlineChat_overview nls_default);
      JString (@inlineChat_access nls_default JUndefined);
      JString (@inlineChat_contextActions nls_default);
      JString (@inlineChat_fix nls_default);
      JString (@inlineChat_diffNoKb nls_default);
      JString (@inlineChat_explain nls_default);
      JString (@inlineChat_toolbar nls_default);
      JString (@chat_audioCues nls_default) ].
Proof.
  assert (∀ label, ¬ resolves_to no_keybindings "inlineChat.previousFromHistory" label)
    as Hno by (intros label; discriminate).
  split; [exact Hno |].
  apply (@request_history_omitted nls_default strings_default
           (accessor_with no_keybindings None) (or_introl Hno)).
Defined.

Lemma runAccessibilityHelpAction_absent_witness :
  chosenInputEditor sample_world 0 panelChat = None ∧
  (@runAccessibilityHelpAction nls_default strings_default 0 panelChat sample_world).2
  = sample_world.
Proof.
  split; [reflexivity |].
  apply (@runAccessibilityHelpAction_absent nls_default strings_default
           0 panelChat sample_world (or_introl eq_refl)).
Defined.

Lemma onClose_disposes_registered_provider_witness :
  chosenInputEditor sample_world 0 inlineChat = Some 0 ∧
  ∃ r p,
    registry sample_world !! r = None ∧
    registry (@runAccessibilityHelpAction nls_default strings_default
                0 inlineChat sample_world).2 = <[r := p]> (registry sample_world) ∧
    id p = inlineChat ∧
    env_type (onCloseEnv p) = inlineChat ∧
    (∀ w2, registry (onClose (onCloseEnv p) {| registration := r |} w2).2
           = delete r (registry w2)) ∧
    registry (close r
                (@runAccessibilityHelpAction nls_default strings_default
                   0 inlineChat sample_world).2).2 = registry sample_world.
Proof.
  split; [reflexivity |].
  apply (@onClose_disposes_registered_provider nls_default strings_default
           0 inlineChat sample_world 0 {| uri := "file:///a.ts" |} 1
           eq_refl eq_refl eq_refl).
Defined.

Lemma ICONS_never_mutated_witness :
  let w := (@runAccessibilityHelpAction nls_default strings_default
              0 inlineChat sample_world).2 in
  rtc (@step nls_default strings_default) sample_world (close 0 w).2 ∧
  icons (close 0 w).2 = ICONS.
Proof.
  intros w.
  assert (rtc (@step nls_default strings_default) sample_world
            (close 0 w).2) as Hsteps.
  { eapply rtc_l; [apply step_run |]. apply rtc_once, step_close. }
  split; [exact Hsteps |].
  apply (proj1 (@ICONS_never_mutated nls_default strings_default
                  (accessor_with history_keybindings None) (λ _, ready_editor)
                  _ Hsteps)).
Defined.

Lemma ICONS_distinct_in_order_witness :
  ICONS !! 26 = Some Codicon.map ∧ indexOf Codicon.map ICONS = Some 26.
Proof.
  split; [reflexivity |].
  apply (proj2 (proj2 ICONS_distinct_in_order) 26 Codicon.map eq_refl).
Defined.

(** * Further properties of the help text *)

Lemma split_append_newline (a b : string) :
  split LF (a +:+ newline +:+ b) = split LF a ++ split LF b.
Proof.
  unfold newline. by rewrite append_cons, append_nil_l, split_append.
Qed.

(** Joining a non-empty array of single-line elements with line feeds and
    splitting the result at line feeds gives the elements back. *)
Lemma split_join (content : list JsValue) :
  content ≠ [] → single_lines content →
  split LF (join newline content) = join_item <$> content.
Proof.
  unfold single_lines.
  induction content as [|x content IH]; [done | intros _ Hall].
  apply Forall_cons_1 in Hall as [Hx Hrest].
  destruct content as [|y content].
  - simpl. by apply split_free_of.
  - rewrite join_cons_cons, split_append_newline.
    rewrite (split_free_of _ _ Hx), IH by done. done.
Qed.

Section help_text_lines.
Context `{!Nls, !Strings}.
Implicit Types (accessor : ServicesAccessor) (type : ChatType).

(** X1: the lines of the help text are the elements pushed to [content],
    one line each and in the order of the pushes, provided no element has a
    line feed of its own. *)
Theorem getAccessibilityHelpText_lines accessor type :
  single_lines (helpContent accessor type) →
  split LF (getAccessibilityHelpText accessor type)
  = join_item <$> helpContent accessor type.
Proof.
  intros Hlines. unfold getAccessibilityHelpText.
  apply split_join; [| done].
  destruct (helpContent_snoc accessor type) as (body & Hbody & ->).
  by destruct body.
Qed.

(** X2: in the inline mode a history command whose keybinding has the empty
    string as aria label counts as having none: the guard is a truthiness
    test, and the text is the eight sentences without the request
    history. *)
Theorem request_history_omitted_empty_label accessor :
  let keybindingService := get_IKeybindingService accessor in
  let diffReview := lookupAriaLabel keybindingService "editor.action.diffReview.next" in
  resolves_to keybindingService "inlineChat.previousFromHistory" EmptyString ∨
  resolves_to keybindingService "inlineChat.nextFromHistory" EmptyString →
  getAccessibilityHelpText accessor inlineChat =
  join newline
    [ JString inlineChat_overview;
      JString (inlineChat_access (lookupAriaLabel keybindingService "inlineChat.start"));
      JString inlineChat_contextActions;
      JString inlineChat_fix;
      JString (if truthy diffReview then inlineChat_diff diffReview else inlineChat_diffNoKb);
      JString inlineChat_explain;
      JString inlineChat_toolbar;
      JString chat_audioCues ].
Proof.
  intros ks diffReview Hempty.
  unfold getAccessibilityHelpText. f_equal.
  apply helpContent_inlineChat_no_history. fold ks.
  unfold resolves_to in Hempty. destruct Hempty as [-> | ->]; [done |].
  apply andb_false_r.
Qed.

(** X3: the text of a mode depends on the keybinding service only through the
    four commands that the mode looks up: services that agree on those
    give the same text, however they differ on every other command. *)
Theorem getAccessibilityHelpText_consulted accessor1 accessor2 type :
  (∀ commandId, commandId ∈ consultedCommands type →
     lookupAriaLabel (get_IKeybindingService accessor1) commandId =
     lookupAriaLabel (get_IKeybindingService accessor2) commandId) →
  getAccessibilityHelpText accessor1 type = getAccessibilityHelpText accessor2 type.
Proof.
  intros Hsame. unfold getAccessibilityHelpText. f_equal.
  unfold helpContent, chat_focus, chat_focusInput, chat_nextCodeBlock, chat_clear.
  destruct type; cbv zeta.
  - rewrite !descriptionForCommand_lookupAriaLabel.
    rewrite (Hsame "chat.action.focus"),
            (Hsame "workbench.action.chat.focusInput"),
            (Hsame "workbench.action.chat.nextCodeBlock"),
            (Hsame "workbench.action.chat.clear");
      [done | ..];
      repeat first [apply list_elem_of_here | apply list_elem_of_further].
  - rewrite (Hsame "inlineChat.start"),
            (Hsame "inlineChat.previousFromHistory"),
            (Hsame "inlineChat.nextFromHistory"),
            (Hsame "editor.action.diffReview.next");
      [done | ..];
      repeat first [apply list_elem_of_here | apply list_elem_of_further].
Qed.

(** X4: the access sentence of the inline mode is not guarded: when the start
    command has no keybinding, [localize] is handed [undefined] as the
    value for [{0}], and the sentence is still the second line of the
    text, right after the overview. *)
Theorem inlineChat_access_unbound accessor :
  lookupKeybinding (get_IKeybindingService accessor) "inlineChat.start" = None →
  ∃ rest,
    getAccessibilityHelpText accessor inlineChat =
    inlineChat_overview +:+ newline +:+
    localize "inlineChat.access" "It can be activated via code actions or directly using the command: Inline Chat: Start Code Chat ({0})." [JUndefined]
    +:+ newline +:+ rest.
Proof.
  intros Hstart. unfold getAccessibilityHelpText, helpContent, lookupAriaLabel.
  rewrite Hstart. cbv zeta. unfold push, inlineChat_access.
  destruct (truthy _ && truthy _); eexists; reflexivity.
Qed.

End help_text_lines.

(** * Further properties of the help action *)

Section help_action_effects.
Context `{!Nls, !Strings}.
Implicit Types (w : World) (editor inputEditor : EditorId) (type : ChatType).

(** With the three values present, the action is: register the provider
    built from the world at the call, then show the view of the mode. *)
Lemma runAccessibilityHelpAction_present editor type w inputEditor m d :
  chosenInputEditor w editor type = Some inputEditor →
  model (editors w editor) = Some m →
  domNode (editors w inputEditor) = Some d →
  runAccessibilityHelpAction editor type w =
  (Fulfilled (),
   (show type
      (registerProvider
         {| id := type;
            provideContent := getAccessibilityHelpText (accessor w) type;
            onCloseEnv :=
              {| env_type := type;
                 env_cachedPosition := position (editors w inputEditor);
                 env_inputEditor := inputEditor;
                 env_editor := editor |};
            options :=
              {| type_ := HelpMenu;
                 ariaLabel :=
                   match type with
                   | panelChat => localize "chat-help-label" "Chat accessibility help" []
                   | inlineChat => localize "inline-chat-label" "Inline chat accessibility help" []
                   end |} |} w).2).2).
Proof.
  intros Hinput Hmodel Hdom.
  unfold runAccessibilityHelpAction, chosenInputEditor in *. unfold_M.
  rewrite Hinput, Hmodel. cbn [fmap option_fmap option_map].
  rewrite Hdom. reflexivity.
Qed.

(** A registration that was free before the action and is taken after it
    holds the provider of this action. *)
Lemma registered_provider editor type w inputEditor m d r p :
  chosenInputEditor w editor type = Some inputEditor →
  model (editors w editor) = Some m →
  domNode (editors w inputEditor) = Some d →
  registry w !! r = None →
  registry (runAccessibilityHelpAction editor type w).2 !! r = Some p →
  id p = type ∧
  provideContent p = getAccessibilityHelpText (accessor w) type ∧
  onCloseEnv p =
    {| env_type := type;
       env_cachedPosition := position (editors w inputEditor);
       env_inputEditor := inputEditor;
       env_editor := editor |}.
Proof.
  intros Hinput Hmodel Hdom Hfree.
  rewrite (runAccessibilityHelpAction_present _ _ _ _ _ _ Hinput Hmodel Hdom).
  cbn [snd].
  match goal with
  | |- registry (show _ (registerProvider ?q _).2).2 !! _ = _ → _ =>
      change (registry (show type (registerProvider q w).2).2)
        with (<[fresh (dom (registry w)) := q]> (registry w))
  end.
  intros [[_ <-] | [_ Hold]]%lookup_insert_Some; [done | congruence].
Qed.

Lemma close_registered r p w :
  registry w !! r = Some p →
  close r w = onClose (onCloseEnv p) {| registration := r |} w.
Proof. intros Hp. unfold close. unfold registry in Hp. by rewrite Hp. Qed.

(** The action writes to the accessible-view service only. *)
Lemma runAccessibilityHelpAction_writes editor type w :
  let w' := (runAccessibilityHelpAction editor type w).2 in
  editors w' = editors w ∧
  get_IKeybindingService (accessor w') = get_IKeybindingService (accessor w) ∧
  get_IChatWidgetService (accessor w') = get_IChatWidgetService (accessor w).
Proof.
  cbv zeta. repeat split;
    unfold runAccessibilityHelpAction; unfold_M;
    destruct type; simpl;
    repeat match goal with
           | |- context [match ?x with _ => _ end] => destruct x; simpl
           end; reflexivity.
Qed.

(** X5: whether it returns early or not, the action leaves every editor,
    the keybinding service and the chat widget service as they were: it
    does not move a cursor or the focus, and a later call computes the
    same help text. *)
Theorem runAccessibilityHelpAction_frame editor type w :
  let w' := (runAccessibilityHelpAction editor type w).2 in
  editors w' = editors w ∧
  get_IKeybindingService (accessor w') = get_IKeybindingService (accessor w) ∧
  get_IChatWidgetService (accessor w') = get_IChatWidgetService (accessor w) ∧
  (∀ type', getAccessibilityHelpText (accessor w') type'
            = getAccessibilityHelpText (accessor w) type').
Proof.
  intros w'.
  destruct (runAccessibilityHelpAction_writes editor type w) as (He & Hk & Hc).
  fold w' in He, Hk, Hc. repeat split; try done.
  intros type'. unfold getAccessibilityHelpText, helpContent. by rewrite Hk.
Qed.

(** X6: with the three values present, the action registers a provider whose
    id is the mode, whose content is the help text computed from the
    services at the call, and whose closure holds the cursor position the
    input editor has at the call; the view of the mode is then shown. *)
Theorem runAccessibilityHelpAction_opens editor type w inputEditor m d :
  chosenInputEditor w editor type = Some inputEditor →
  model (editors w editor) = Some m →
  domNode (editors w inputEditor) = Some d →
  let w' := (runAccessibilityHelpAction editor type w).2 in
  shownView w' = Some type ∧
  ∃ r p,
    registry w' !! r = Some p ∧
    id p = type ∧
    provideContent p = getAccessibilityHelpText (accessor w) type ∧
    type_ (options p) = HelpMenu ∧
    env_cachedPosition (onCloseEnv p) = position (editors w inputEditor) ∧
    env_inputEditor (onCloseEnv p) = inputEditor ∧
    env_editor (onCloseEnv p) = editor.
Proof.
  intros Hinput Hmodel Hdom w'. subst w'.
  rewrite (runAccessibilityHelpAction_present _ _ _ _ _ _ Hinput Hmodel Hdom).
  cbn [snd]. split; [reflexivity |].
  exists (fresh (dom (registry w))). eexists. split.
  - match goal with
    | |- registry (show _ (registerProvider ?q _).2).2 !! _ = _ =>
        change (registry (show type (registerProvider q w).2).2)
          with (<[fresh (dom (registry w)) := q]> (registry w))
    end.
    apply lookup_insert_eq.
  - done.
Qed.

(** X7: panel mode, round trip of the cursor: if the input editor has a
    position when the help is opened, closing the overlay later, in
    whatever world the provider is still registered, puts the input
    editor's cursor back to that position and gives it the focus; no
    other editor is touched and the registration is removed. *)
Theorem close_panelChat_restores_cursor editor w inputEditor m d cachedPosition r p w2 :
  chosenInputEditor w editor panelChat = Some inputEditor →
  model (editors w editor) = Some m →
  domNode (editors w inputEditor) = Some d →
  position (editors w inputEditor) = Some cachedPosition →
  registry w !! r = None →
  registry (runAccessibilityHelpAction editor panelChat w).2 !! r = Some p →
  registry w2 !! r = Some p →
  let w3 := (close r w2).2 in
  position (editors w3 inputEditor) = Some cachedPosition ∧
  focused (editors w3 inputEditor) = true ∧
  (∀ e, e ≠ inputEditor → editors w3 e = editors w2 e) ∧
  registry w3 = delete r (registry w2).
Proof.
  intros Hinput Hmodel Hdom Hpos Hfree Hreg Hstill w3. subst w3.
  destruct (registered_provider _ _ _ _ _ _ _ _ Hinput Hmodel Hdom Hfree Hreg)
    as (_ & _ & Henv).
  rewrite (close_registered _ _ _ Hstill), Henv, Hpos.
  split; [| split; [| split]].
  - unfold onClose. unfold_M. unfold with_editor, with_accessibleViewService.
    simpl. by rewrite !fn_lookup_insert.
  - unfold onClose. unfold_M. unfold with_editor, with_accessibleViewService.
    simpl. by rewrite !fn_lookup_insert.
  - intros e Hne. unfold onClose. unfold_M.
    unfold with_editor, with_accessibleViewService. simpl.
    by rewrite !fn_lookup_insert_ne.
  - apply onClose_registry.
Qed.

(** X8: panel mode, no cached position: if the input editor has no position
    when the help is opened, closing the overlay neither moves a cursor
    nor focuses the input editor; it only removes the registration. *)
Theorem close_panelChat_without_position editor w inputEditor m d r p w2 :
  chosenInputEditor w editor panelChat = Some inputEditor →
  model (editors w editor) = Some m →
  domNode (editors w inputEditor) = Some d →
  position (editors w inputEditor) = None →
  registry w !! r = None →
  registry (runAccessibilityHelpAction editor panelChat w).2 !! r = Some p →
  registry w2 !! r = Some p →
  let w3 := (close r w2).2 in
  editors w3 = editors w2 ∧
  registry w3 = delete r (registry w2).
Proof.
  intros Hinput Hmodel Hdom Hpos Hfree Hreg Hstill w3. subst w3.
  destruct (registered_provider _ _ _ _ _ _ _ _ Hinput Hmodel Hdom Hfree Hreg)
    as (_ & _ & Henv).
  rewrite (close_registered _ _ _ Hstill), Henv, Hpos.
  split; [reflexivity | apply onClose_registry].
Qed.

(** X9: inline mode: closing the overlay focuses the inline chat of the
    editor the help was opened on, when that editor has a controller, and
    does nothing to the editors when it has none.  The cached position is
    not used: no cursor moves and no editor gets the focus. *)
Theorem close_inlineChat_focuses_widget editor w m d r p w2 :
  model (editors w editor) = Some m →
  domNode (editors w editor) = Some d →
  registry w !! r = None →
  registry (runAccessibilityHelpAction editor inlineChat w).2 !! r = Some p →
  registry w2 !! r = Some p →
  let w3 := (close r w2).2 in
  inlineChatController (editors w3 editor) =
    (λ _, {| widgetFocused := true |}) <$> inlineChatController (editors w2 editor) ∧
  (∀ e, position (editors w3 e) = position (editors w2 e) ∧
        focused (editors w3 e) = focused (editors w2 e)) ∧
  (∀ e, e ≠ editor → editors w3 e = editors w2 e) ∧
  registry w3 = delete r (registry w2).
Proof.
  intros Hmodel Hdom Hfree Hreg Hstill w3. subst w3.
  destruct (registered_provider editor inlineChat w editor m d r p
              eq_refl Hmodel Hdom Hfree Hreg) as (_ & _ & Henv).
  rewrite (close_registered _ _ _ Hstill), Henv.
  split; [| split; [| split]].
  - unfold onClose. unfold_M. unfold with_editor, with_accessibleViewService.
    simpl. rewrite fn_lookup_insert. simpl.
    by destruct (inlineChatController (editors w2 editor)).
  - intros e. unfold onClose. unfold_M.
    unfold with_editor, with_accessibleViewService. simpl.
    destruct (decide (editor = e)) as [<- | Hne].
    + by rewrite fn_lookup_insert.
    + by rewrite fn_lookup_insert_ne.
  - intros e Hne. unfold onClose. unfold_M.
    unfold with_editor, with_accessibleViewService. simpl.
    by rewrite fn_lookup_insert_ne.
  - apply onClose_registry.
Qed.

End help_action_effects.

(** * Invariants *)

Lemma truthy_string (v : JsValue) :
  truthy v = true → ∃ s, v = JString s.
Proof. destruct v; [eauto | done | done]. Qed.

Section invariants.
Context `{!Nls, !Strings}.
Implicit Types (w : World) (accessor : ServicesAccessor) (type : ChatType).

(** X10: every element pushed to [content] is a string: the lookups may yield
    [null] or [undefined], but those reach [localize] or fail the guard,
    they are never pushed, so [join] never turns one into an empty
    line. *)
Theorem helpContent_all_strings accessor type :
  Forall (λ v, ∃ s, v = JString s) (helpContent accessor type).
Proof.
  destruct type.
  - rewrite helpContent_panelChat. cbv zeta. repeat constructor; eauto.
  - set (ks := get_IKeybindingService accessor).
    destruct (truthy (lookupAriaLabel ks "inlineChat.previousFromHistory") &&
              truthy (lookupAriaLabel ks "inlineChat.nextFromHistory")) eqn:Hboth.
    + apply andb_prop in Hboth as [Hup Hdown].
      rewrite helpContent_inlineChat_history by done. cbv zeta. fold ks.
      repeat constructor; eauto using truthy_string.
    + rewrite helpContent_inlineChat_no_history by done. cbv zeta.
      repeat constructor; eauto.
Qed.

Lemma onClose_attachment env provider w e :
  let w' := (onClose env provider w).2 in
  get_IKeybindingService (accessor w') = get_IKeybindingService (accessor w) ∧
  get_IChatWidgetService (accessor w') = get_IChatWidgetService (accessor w) ∧
  model (editors w' e) = model (editors w e) ∧
  domNode (editors w' e) = domNode (editors w e).
Proof.
  unfold onClose.
  destruct (decide (env_inputEditor env = e)) as [Hi | Hinput],
           (decide (env_editor env = e)) as [He | Heditor];
    try rewrite Hi; try rewrite He;
    destruct (env_type env), (env_cachedPosition env) as [cachedPosition|];
    unfold_M; unfold with_editor, with_accessibleViewService; simpl;
    repeat split; try done;
    repeat (first [rewrite fn_lookup_insert
                  | rewrite fn_lookup_insert_ne by done]; simpl);
    done.
Qed.

(** One operation keeps the keybinding service, the widget service, and
    every editor's model and DOM node. *)
Lemma step_attachment w w' :
  step w w' →
  get_IKeybindingService (accessor w') = get_IKeybindingService (accessor w) ∧
  get_IChatWidgetService (accessor w') = get_IChatWidgetService (accessor w) ∧
  (∀ e, model (editors w' e) = model (editors w e) ∧
        domNode (editors w' e) = domNode (editors w e)).
Proof.
  intros [editor type w0 | r w0].
  - destruct (runAccessibilityHelpAction_writes editor type w0) as (-> & -> & ->).
    done.
  - unfold close.
    destruct (providers _ !! r) as [p|]; [| done].
    pose proof (onClose_attachment (onCloseEnv p) {| registration := r |} w0) as Hc.
    cbv zeta in Hc. repeat split; try apply (Hc 0); apply Hc.
Qed.

(** X11: whatever help actions and overlay closings have run, the services
    that the help text is computed from are the ones of the start, and
    every editor still has the model and the DOM node it had: the same
    help text is produced, and the early-return test on an editor of the
    inline mode has the same outcome. *)
Theorem steps_preserve_help_inputs w w' :
  rtc step w w' →
  (∀ type, getAccessibilityHelpText (accessor w') type
           = getAccessibilityHelpText (accessor w) type) ∧
  (∀ editor type, chosenInputEditor w' editor type = chosenInputEditor w editor type) ∧
  (∀ e, model (editors w' e) = model (editors w e) ∧
        domNode (editors w' e) = domNode (editors w e)).
Proof.
  intros Hsteps.
  assert (get_IKeybindingService (accessor w') = get_IKeybindingService (accessor w) ∧
          get_IChatWidgetService (accessor w') = get_IChatWidgetService (accessor w) ∧
          (∀ e, model (editors w' e) = model (editors w e) ∧
                domNode (editors w' e) = domNode (editors w e))) as (Hk & Hc & He).
  { revert w' Hsteps. apply rtc_ind_r; [done |].
    intros w1 w2 _ Hstep (Hk & Hc & He).
    destruct (step_attachment _ _ Hstep) as (Hk' & Hc' & He').
    split; [congruence |]. split; [congruence |].
    intros e. destruct (He e), (He' e). split; congruence. }
  split; [| split; [| done]].
  - intros type. unfold getAccessibilityHelpText, helpContent. by rewrite Hk.
  - intros editor type. unfold chosenInputEditor. by rewrite Hc.
Qed.

End invariants.

(** * The further properties at sample hosts *)

Lemma getAccessibilityHelpText_lines_witness :
  single_lines (@helpContent nls_default strings_default
                  (accessor_with history_keybindings None) panelChat) ∧
  length (split LF (@getAccessibilityHelpText nls_default strings_default
                      (accessor_with history_keybindings None) panelChat)) = 8.
Proof.
  assert (single_lines (@helpContent nls_default strings_default
                          (accessor_with history_keybindings None) panelChat))
    as Hlines by (repeat constructor).
  split; [exact Hlines |].
  rewrite (@getAccessibilityHelpText_lines nls_default strings_default
             (accessor_with history_keybindings None) panelChat Hlines).
  reflexivity.
Defined.

Lemma request_history_omitted_empty_label_witness :
  resolves_to empty_label_keybindings "inlineChat.previousFromHistory" EmptyString ∧
  length (split LF (@getAccessibilityHelpText nls_default strings_default
                      (accessor_with empty_label_keybindings None) inlineChat)) = 8.
Proof.
  split; [reflexivity |].
  rewrite (@request_history_omitted_empty_label nls_default strings_default
             (accessor_with empty_label_keybindings None) (or_introl eq_refl)).
  reflexivity.
Defined.

Lemma getAccessibilityHelpText_consulted_witness :
  @getAccessibilityHelpText nls_default strings_default
    (accessor_with history_keybindings None) panelChat =
  @getAccessibilityHelpText nls_default strings_default
    (accessor_with no_keybindings (Some {| inputEditor := 1 |})) panelChat.
Proof.
  apply (@getAccessibilityHelpText_consulted nls_default strings_default).
  intros commandId Hin. simpl in Hin.
  repeat (apply elem_of_cons in Hin as [-> | Hin]; [reflexivity |]).
  by apply elem_of_nil in Hin.
Defined.

Lemma inlineChat_access_unbound_witness :
  ∃ rest,
    @getAccessibilityHelpText nls_default strings_default
      (accessor_with history_keybindings None) inlineChat =
    "Inline chat occurs within a code editor and takes into account the current selection. It is useful for making changes to the current editor. For example, fixing diagnostics, documenting or refactoring code. Keep in mind that AI generated code may be incorrect."
    +:+ newline +:+
    "It can be activated via code actions or directly using the command: Inline Chat: Start Code Chat (undefined)."
    +:+ newline +:+ rest.
Proof.
  apply (@inlineChat_access_unbound nls_default strings_default
           (accessor_with history_keybindings None) eq_refl).
Defined.

Lemma runAccessibilityHelpAction_opens_witness :
  shownView (@runAccessibilityHelpAction nls_default strings_default
               0 panelChat panel_world).2 = Some panelChat.
Proof.
  apply (@runAccessibilityHelpAction_opens nls_default strings_default
           0 panelChat panel_world 1 {| uri := "file:///a.ts" |} 1
           eq_refl eq_refl eq_refl).
Defined.

(** The help is opened on the panel, the cursor of the input editor is
    then moved to line 9, and the overlay is closed. *)
Lemma close_panelChat_restores_cursor_witness :
  let opened := (@runAccessibilityHelpAction nls_default strings_default
                   0 panelChat panel_world).2 in
  let moved := (setPosition 1 {| lineNumber := 9; column := 1 |} opened).2 in
  position (editors moved 1) = Some {| lineNumber := 9; column := 1 |} ∧
  position (editors (close 0 moved).2 1) = Some {| lineNumber := 3; column := 7 |} ∧
  focused (editors (close 0 moved).2 1) = true.
Proof.
  intros opened moved. split; [reflexivity |].
  assert (∃ p, registry opened !! 0 = Some p) as [p Hp] by (eexists; reflexivity).
  destruct (@close_panelChat_restores_cursor nls_default strings_default
              0 panel_world 1 {| uri := "file:///a.ts" |} 1
              {| lineNumber := 3; column := 7 |} 0 p moved
              eq_refl eq_refl eq_refl eq_refl eq_refl Hp Hp)
    as (Hposition & Hfocus & _).
  split; [exact Hposition | exact Hfocus].
Defined.

Lemma close_panelChat_without_position_witness :
  let opened := (@runAccessibilityHelpAction nls_default strings_default
                   0 panelChat no_position_world).2 in
  position (editors no_position_world 1) = None ∧
  editors (close 0 opened).2 = editors opened.
Proof.
  intros opened. split; [reflexivity |].
  assert (∃ p, registry opened !! 0 = Some p) as [p Hp] by (eexists; reflexivity).
  apply (@close_panelChat_without_position nls_default strings_default
           0 no_position_world 1 {| uri := "file:///a.ts" |} 1 0 p opened
           eq_refl eq_refl eq_refl eq_refl eq_refl Hp Hp).
Defined.

Lemma close_inlineChat_focuses_widget_witness :
  let opened := (@runAccessibilityHelpAction nls_default strings_default
                   0 inlineChat sample_world).2 in
  inlineChatController (editors (close 0 opened).2 0) = Some {| widgetFocused := true |} ∧
  focused (editors (close 0 opened).2 0) = false.
Proof.
  intros opened.
  assert (∃ p, registry opened !! 0 = Some p) as [p Hp] by (eexists; reflexivity).
  destruct (@close_inlineChat_focuses_widget nls_default strings_default
              0 sample_world {| uri := "file:///a.ts" |} 1 0 p opened
              eq_refl eq_refl eq_refl Hp Hp)
    as (Hcontroller & Hsame & _).
  split; [exact Hcontroller | exact (proj2 (Hsame 0))].
Defined.

Lemma steps_preserve_help_inputs_witness :
  let opened := (@runAccessibilityHelpAction nls_default strings_default
                   0 panelChat panel_world).2 in
  rtc (@step nls_default strings_default) panel_world (close 0 opened).2 ∧
  @getAccessibilityHelpText nls_default strings_default
    (accessor (close 0 opened).2) inlineChat =
  @getAccessibilityHelpText nls_default strings_default
    (accessor panel_world) inlineChat.
Proof.
  intros opened.
  assert (rtc (@step nls_default strings_default) panel_world (close 0 opened).2)
    as Hsteps.
  { eapply rtc_l; [apply step_run |]. apply rtc_once, step_close. }
  split; [exact Hsteps |].
  apply (proj1 (@steps_preserve_help_inputs nls_default strings_default
                  panel_world (close 0 opened).2 Hsteps) inlineChat).
Defined.
